(** * Phaser FX: effect controllers and the FX component of a Game Object

    A shallow embedding of the three source files

    - the [Blur] controller (constructor and [color] accessor),
    - the [Displacement] controller (constructor and [setTexture]),
    - [gameobjects/components/FX.js], the mixin that keeps the list of
      controllers of a Game Object,

    followed by the properties established about them. *)

From Stdlib Require Import ZArith Lia Bool.
From Stdlib Require Import Floats.SpecFloat.
From stdpp Require Import base option list gmap strings relations.

Local Open Scope Z_scope.

(** ** JavaScript values *)

(** A JavaScript Number is an IEEE 754 binary64 float. *)
Module Number.

Definition prec : Z := 53.
Definition emax : Z := 1024.

Definition number : Type := spec_float.

Definition NaN : number := S754_nan.

Definition add (a b : number) : number := SFadd prec emax a b.
Definition mul (a b : number) : number := SFmul prec emax a b.
Definition div (a b : number) : number := SFdiv prec emax a b.

(** The Number that an integer literal, or the integer result of a
    bitwise operator, denotes.  Exact for every [|z| <= 2^53]. *)
Definition of_Z (z : Z) : number := binary_normalize prec emax z 0 false.

(** 32-bit two's complement wrap-around: the representative of [z]
    modulo [2^32] in [-2^31, 2^31). *)
Definition wrap32 (z : Z) : Z := (z + 2 ^ 31) mod 2 ^ 32 - 2 ^ 31.

(** The mathematical integer [sign(x) * floor(abs(x))] of a finite
    Number. *)
Definition truncate (s : bool) (m : positive) (e : Z) : Z :=
  let mag := if 0 <=? e then Z.pos m * 2 ^ e else Z.pos m / 2 ^ (- e) in
  if s then - mag else mag.

(** ECMAScript ToInt32: NaN, the zeros and the infinities give 0; a
    finite Number is truncated towards zero and wrapped to 32 bits. *)
Definition ToInt32 (x : number) : Z :=
  match x with
  | S754_finite s m e => wrap32 (truncate s m e)
  | _ => 0
  end.

(** [a << n], [a >> n], [a & b] on operands already converted by
    ToInt32; the shift count is a literal below 32 at every use. *)
Definition shl (a n : Z) : Z := wrap32 (Z.shiftl a n).
Definition sar (a n : Z) : Z := Z.shiftr a n.
Definition band (a b : Z) : Z := Z.land a b.

End Number.

Import Number.

(** The values a parameter or a property holds in this code: a missing
    argument is [undefined]; every documented parameter is a number or
    a boolean flag. *)
Inductive jsval : Type :=
  | undefined
  | null
  | boolean (b : bool)
  | num (n : number).

(** ECMAScript ToNumber and ToBoolean on these values. *)
Definition ToNumber (v : jsval) : number :=
  match v with
  | undefined => NaN
  | null => of_Z 0
  | boolean b => if b then of_Z 1 else of_Z 0
  | num n => n
  end.

Definition ToBoolean (v : jsval) : bool :=
  match v with
  | undefined | null => false
  | boolean b => b
  | num (S754_zero _) | num S754_nan => false
  | num _ => true
  end.

(** [v === undefined] and [v === null]. *)
Definition is_undefined (v : jsval) : bool :=
  match v with undefined => true | _ => false end.

Definition is_null (v : jsval) : bool :=
  match v with null => true | _ => false end.

(** An integer literal as a value. *)
Definition int (z : Z) : jsval := num (of_Z z).

(** *** Arrays

    [a[i]] reads [undefined] past the end; [a[i] = v] on an index past
    the end grows the array, the skipped slots reading [undefined]. *)
Definition array_get (a : list jsval) (i : nat) : jsval :=
  default undefined (a !! i).

Definition array_set (a : list jsval) (i : nat) (v : jsval) : list jsval :=
  if decide (i < length a)%nat then <[i := v]> a
  else a ++ replicate (i - length a) undefined ++ [v].

(** ** The scene a Game Object lives in *)

(** A WebGL texture and a render pipeline are opaque handles. *)
Inductive WebGLTexture : Type := WebGLTextureId (id : positive).
Inductive Pipeline : Type := PipelineNamed (name : string).

(** A texture frame; [frame_glTexture] is its [glTexture] property. *)
Record Frame : Type := { frame_glTexture : option WebGLTexture }.

(** [renderer.pipelines], with its [FX_PIPELINE] property. *)
Record PipelineManager : Type := { FX_PIPELINE : option Pipeline }.

(** [scene.sys.renderer]; [pipelines] is absent on a renderer that has
    no pipeline manager. *)
Record Renderer : Type := { pipelines : option PipelineManager }.

(** [scene.sys]: the renderer, absent when the game has none, and the
    texture manager, the named frames it holds. *)
Record Scene : Type := {
  renderer : option Renderer;
  textures : gmap string Frame
}.

(** Modelled from the spec: [textures.getFrame(key)] of the texture
    manager, which is not among the sources.  It resolves a named
    texture frame and yields nothing when the name is unknown. *)
Definition getFrame (tm : gmap string Frame) (key : string) : option Frame :=
  tm !! key.

(** The reference a controller keeps to the Game Object that owns it.
    A controller follows it to [gameObject.scene] only, so the
    reference is represented by the scene it leads to. *)
Record GameObjectRef : Type := { ref_scene : Scene }.

(** ** Effect controllers *)

(** The kind tags of [FX_CONST]. *)
Inductive FXKind : Type :=
  | GLOW | SHADOW | PIXELATE | VIGNETTE | SHINE | BLUR
  | GRADIENT | BLOOM | COLOR_MATRIX | CIRCLE | BARREL | DISPLACEMENT.

(** Modelled from the spec: the base class [Controller] ([BaseFX] in
    the older layout), which is not among the sources.  It records the
    kind tag and the owning Game Object. *)
Record Controller : Type := {
  type : FXKind;
  gameObject : GameObjectRef
}.

Definition Controller_call (kind : FXKind) (owner : GameObjectRef) : Controller :=
  {| type := kind; gameObject := owner |}.

Module Blur.

Record t : Type := {
  super : Controller;
  quality : jsval;
  x : jsval;
  y : jsval;
  steps : jsval;
  strength : jsval;
  glcolor : list jsval
}.

Definition with_glcolor (this : t) (color : list jsval) : t :=
  {| super := super this; quality := quality this; x := x this;
     y := y this; steps := steps this; strength := strength this;
     glcolor := color |}.

(** One channel as the setter stores it: a byte of the 32-bit value
    divided by 255. *)
Definition channel (value : Z) (shift : Z) : jsval :=
  num (div (of_Z (band (sar value shift) 255)) (of_Z 255)).

(** [color.set]: each bitwise operator converts [value] by ToInt32;
    the three low bytes become the channels [glcolor[0..2]]. *)
Definition color_set (value : jsval) (this : t) : t :=
  let color := glcolor this in
  let v := ToInt32 (ToNumber value) in
  let color := array_set color 0 (channel v 16) in
  let color := array_set color 1 (channel v 8) in
  let color := array_set color 2 (num (div (of_Z (band v 255)) (of_Z 255))) in
  with_glcolor this color.

(** [color[i] * 255] converted by the bitwise operator that follows. *)
Definition scaled (color : list jsval) (i : nat) : Z :=
  ToInt32 (mul (ToNumber (array_get color i)) (of_Z 255)).

(** [color.get]: the sum, in binary64, of the three 32-bit integers
    that the shifts and the [| 0] produce. *)
Definition color_get (this : t) : number :=
  let color := glcolor this in
  add (add (of_Z (shl (scaled color 0) 16)) (of_Z (shl (scaled color 1) 8)))
      (of_Z (Z.lor (scaled color 2) 0)).

(** The constructor.  The default computed for [quality] is not
    used: the field is set to the literal 0. *)
Definition initialize (owner : GameObjectRef)
    (quality x y strength color steps : jsval) : t :=
  let quality := if is_undefined quality then int 0 else quality in
  let x := if is_undefined x then int 2 else x in
  let y := if is_undefined y then int 2 else y in
  let strength := if is_undefined strength then int 1 else strength in
  let steps := if is_undefined steps then int 4 else steps in
  let this :=
    {| super := Controller_call BLUR owner;
       quality := int 0;
       x := x;
       y := y;
       steps := steps;
       strength := strength;
       glcolor := [int 1; int 1; int 1] |} in
  if negb (is_undefined color) && negb (is_null color)
  then color_set color this
  else this.

End Blur.

Module Displacement.

Record t : Type := {
  super : Controller;
  x : jsval;
  y : jsval;
  glTexture : option WebGLTexture
}.

(** The literal [0.005] as a binary64 float. *)
Definition lit_0_005 : number := S754_finite false 5764607523034235 (-60).

Definition setTexture (texture : string) (this : t) : t :=
  let phaserTexture :=
    getFrame (textures (ref_scene (gameObject (super this)))) texture in
  match phaserTexture with
  | Some frame =>
      {| super := super this; x := x this; y := y this;
         glTexture := frame_glTexture frame |}
  | None => this
  end.

Definition initialize (owner : GameObjectRef) : t :=
  let this :=
    {| super := Controller_call DISPLACEMENT owner;
       x := num lit_0_005;
       y := num lit_0_005;
       glTexture := None |} in
  setTexture "__WHITE" this.

End Displacement.

(** ** The FX component *)

(** An entry of the [fx] list: one of the controllers above, or a
    controller of a kind whose class is not among the sources. *)
Inductive Effect : Type :=
  | EffectBlur (c : Blur.t)
  | EffectDisplacement (c : Displacement.t)
  | EffectOther (c : Controller).

Definition controller (e : Effect) : Controller :=
  match e with
  | EffectBlur c => Blur.super c
  | EffectDisplacement c => Displacement.super c
  | EffectOther c => c
  end.

(** The kind tag of an entry. *)
Definition kind (e : Effect) : FXKind := type (controller e).

(** The properties of a Game Object that the component reads and
    writes.  [fx] is [None] for [null]; [defaultPipeline] is the
    pipeline [resetPipeline] goes back to. *)
Record GameObject : Type := {
  scene : Scene;
  pipeline : option Pipeline;
  defaultPipeline : option Pipeline;
  fx : option (list Effect);
  fxPadding : jsval
}.

Definition set_pipeline (p : option Pipeline) (o : GameObject) : GameObject :=
  {| scene := scene o; pipeline := p; defaultPipeline := defaultPipeline o;
     fx := fx o; fxPadding := fxPadding o |}.

Definition set_fx (l : option (list Effect)) (o : GameObject) : GameObject :=
  {| scene := scene o; pipeline := pipeline o;
     defaultPipeline := defaultPipeline o; fx := l; fxPadding := fxPadding o |}.

Definition set_fxPadding (v : jsval) (o : GameObject) : GameObject :=
  {| scene := scene o; pipeline := pipeline o;
     defaultPipeline := defaultPipeline o; fx := fx o; fxPadding := v |}.

(** The reference [this] that a constructor receives. *)
Definition ref (o : GameObject) : GameObjectRef := {| ref_scene := scene o |}.

(** Modelled from the spec: the classes of [Effects], the index of
    [../fx/], which is not among the sources.  [Effects kind] is the
    constructor called with the Game Object alone; it builds the
    controller tagged [kind], the two classes above for their kinds. *)
Definition Effects (k : FXKind) (owner : GameObjectRef) : Effect :=
  match k with
  | BLUR =>
      EffectBlur (Blur.initialize owner undefined undefined undefined
                    undefined undefined undefined)
  | DISPLACEMENT => EffectDisplacement (Displacement.initialize owner)
  | _ => EffectOther (Controller_call k owner)
  end.

(** *** Method calls on [this]

    A method runs on the Game Object, may change it, and completes
    normally with a value or abruptly with an error.  The methods it
    invokes on [this] on the way are recorded in call order. *)
Inductive error : Type := TypeError.

Inductive completion (A : Type) : Type :=
  | Normal (a : A)
  | Throw (e : error).
Arguments Normal {A} a.
Arguments Throw {A} e.

Inductive method : Type := call_enableFX | call_resetPipeline | call_clearFX.

Definition M (A : Type) : Type :=
  GameObject -> completion A * GameObject * list method.

Definition ret {A} (a : A) : M A := fun o => (Normal a, o, []).

Definition throw {A} (e : error) : M A := fun o => (Throw e, o, []).

Definition bind {A B} (m : M A) (k : A -> M B) : M B :=
  fun o =>
    match m o with
    | (Normal a, o1, t1) =>
        let '(r, o2, t2) := k a o1 in (r, o2, t1 ++ t2)
    | (Throw e, o1, t1) => (Throw e, o1, t1)
    end.

Definition this_ : M GameObject := fun o => (Normal o, o, []).

Definition assign (f : GameObject -> GameObject) : M unit :=
  fun o => (Normal tt, f o, []).

(** [this.m()]: run the body of [m] and record the call. *)
Definition invoke {A} (m : method) (body : M A) : M A :=
  fun o => let '(r, o', t) := body o in (r, o', m :: t).

Notation "'let*' x ':=' m 'in' k" := (bind m (fun x => k))
  (at level 10, x pattern, m at level 100, k at level 200).
Notation "m ';;' k" := (bind m (fun _ => k))
  (at level 100, k at level 200, right associativity).

(** Modelled from the spec: [resetPipeline] of the Pipeline component,
    which is not among the sources.  It reverts the Game Object to its
    default pipeline. *)
Definition resetPipeline : M unit :=
  let* this := this_ in
  assign (set_pipeline (defaultPipeline this)).

Module FX.

(** The properties the mixin itself contributes: [fx: null] and
    [fxPadding: 0]. *)
Definition mixin (s : Scene) (p d : option Pipeline) : GameObject :=
  {| scene := s; pipeline := p; defaultPipeline := d;
     fx := None; fxPadding := int 0 |}.

Definition setFXPadding (padding : jsval) : M GameObject :=
  let padding := if is_undefined padding then int 0 else padding in
  assign (set_fxPadding padding);;
  this_.

Definition onFXCopy : M jsval := ret undefined.

Definition onFX : M jsval := ret undefined.

Definition enableFX (padding : jsval) : M GameObject :=
  let* this := this_ in
  let renderer := renderer (scene this) in
  match renderer with
  | None => this_
  | Some renderer =>
      match pipelines renderer with
      | None => this_
      | Some pipelines =>
          assign (set_pipeline (FX_PIPELINE pipelines));;
          let* this := this_ in
          match fx this with
          | None => assign (set_fx (Some []))
          | Some _ => ret tt
          end;;
          (if negb (is_undefined padding)
           then assign (set_fxPadding padding)
           else ret tt);;
          this_
      end
  end.

Definition clearFX : M jsval := ret undefined.

Definition removeFX : M jsval := ret undefined.

Definition disableFX (clear : jsval) : M jsval :=
  invoke call_resetPipeline resetPipeline;;
  (if ToBoolean clear then invoke call_clearFX clearFX else ret undefined);;
  ret undefined.

(** [this.fx.push(fx)]: a TypeError when [this.fx] is [null]. *)
Definition push (e : Effect) : M unit :=
  let* this := this_ in
  match fx this with
  | None => throw TypeError
  | Some l => assign (set_fx (Some (l ++ [e])))
  end.

Definition addGlowFX : M Effect :=
  let* this := this_ in
  match fx this with
  | None => invoke call_enableFX (enableFX undefined);; ret tt
  | Some _ => ret tt
  end;;
  let* this := this_ in
  let fx := Effects GLOW (ref this) in
  push fx;;
  ret fx.

Definition addShadowFX : M Effect :=
  let* this := this_ in
  match fx this with
  | None => invoke call_enableFX (enableFX undefined);; ret tt
  | Some _ => ret tt
  end;;
  let* this := this_ in
  let fx := Effects SHADOW (ref this) in
  push fx;;
  ret fx.

Definition addPixelateFX : M Effect :=
  let* this := this_ in
  match fx this with
  | None => invoke call_enableFX (enableFX undefined);; ret tt
  | Some _ => ret tt
  end;;
  let* this := this_ in
  let fx := Effects PIXELATE (ref this) in
  push fx;;
  ret fx.

Definition addVignetteFX : M Effect :=
  let* this := this_ in
  match fx this with
  | None => invoke call_enableFX (enableFX undefined);; ret tt
  | Some _ => ret tt
  end;;
  let* this := this_ in
  let fx := Effects VIGNETTE (ref this) in
  push fx;;
  ret fx.

Definition addShineFX : M Effect :=
  let* this := this_ in
  match fx this with
  | None => invoke call_enableFX (enableFX undefined);; ret tt
  | Some _ => ret tt
  end;;
  let* this := this_ in
  let fx := Effects SHINE (ref this) in
  push fx;;
  ret fx.

Definition addBlurFX : M Effect :=
  let* this := this_ in
  match fx this with
  | None => invoke call_enableFX (enableFX undefined);; ret tt
  | Some _ => ret tt
  end;;
  let* this := this_ in
  let fx := Effects BLUR (ref this) in
  push fx;;
  ret fx.

Definition addGradientFX : M Effect :=
  let* this := this_ in
  match fx this with
  | None => invoke call_enableFX (enableFX undefined);; ret tt
  | Some _ => ret tt
  end;;
  let* this := this_ in
  let fx := Effects GRADIENT (ref this) in
  push fx;;
  ret fx.

Definition addBloomFX : M Effect :=
  let* this := this_ in
  match fx this with
  | None => invoke call_enableFX (enableFX undefined);; ret tt
  | Some _ => ret tt
  end;;
  let* this := this_ in
  let fx := Effects BLOOM (ref this) in
  push fx;;
  ret fx.

Definition addColorMatrixFX : M Effect :=
  let* this := this_ in
  match fx this with
  | None => invoke call_enableFX (enableFX undefined);; ret tt
  | Some _ => ret tt
  end;;
  let* this := this_ in
  let fx := Effects COLOR_MATRIX (ref this) in
  push fx;;
  ret fx.

Definition addCircleFX : M Effect :=
  let* this := this_ in
  match fx this with
  | None => invoke call_enableFX (enableFX undefined);; ret tt
  | Some _ => ret tt
  end;;
  let* this := this_ in
  let fx := Effects CIRCLE (ref this) in
  push fx;;
  ret fx.

Definition addBarrelFX : M Effect :=
  let* this := this_ in
  match fx this with
  | None => invoke call_enableFX (enableFX undefined);; ret tt
  | Some _ => ret tt
  end;;
  let* this := this_ in
  let fx := Effects BARREL (ref this) in
  push fx;;
  ret fx.

Definition addDisplacementFX : M Effect :=
  let* this := this_ in
  match fx this with
  | None => invoke call_enableFX (enableFX undefined);; ret tt
  | Some _ => ret tt
  end;;
  let* this := this_ in
  let fx := Effects DISPLACEMENT (ref this) in
  push fx;;
  ret fx.

End FX.

(** ** Auxiliary definitions of the statements below *)

(** The canonical binary64 form of the non-zero integer of sign [s]
    and magnitude [p], for [p] of at most 53 bits: the mantissa is
    shifted up to 53 bits. *)
Definition canonical (s : bool) (p : positive) : number :=
  S754_finite s
    (Pos.shiftl p (Z.to_N (53 - Z.pos (digits2_pos p))))
    (Z.pos (digits2_pos p) - 53).

(** The round trip of one byte through a channel, as a test. *)
Definition byte_ok (k : Z) : bool :=
  ToInt32 (mul (div (of_Z k) (of_Z 255)) (of_Z 255)) =? k.

(** The three components of a method run: how it completed, the Game
    Object it left, and the methods it invoked on the way. *)
Definition result {A} (m : M A) (o : GameObject) : completion A := (m o).1.1.
Definition after {A} (m : M A) (o : GameObject) : GameObject := (m o).1.2.
Definition calls {A} (m : M A) (o : GameObject) : list method := (m o).2.

(** The guard of [enableFX], [!renderer || !renderer.pipelines],
    negated: the scene has a renderer and the renderer has pipelines. *)
Definition has_pipelines (s : Scene) : bool :=
  match renderer s with
  | Some r => match pipelines r with Some _ => true | None => false end
  | None => false
  end.

(** The [add...FX] method of each kind. *)
Definition addFX (k : FXKind) : M Effect :=
  match k with
  | GLOW => FX.addGlowFX
  | SHADOW => FX.addShadowFX
  | PIXELATE => FX.addPixelateFX
  | VIGNETTE => FX.addVignetteFX
  | SHINE => FX.addShineFX
  | BLUR => FX.addBlurFX
  | GRADIENT => FX.addGradientFX
  | BLOOM => FX.addBloomFX
  | COLOR_MATRIX => FX.addColorMatrixFX
  | CIRCLE => FX.addCircleFX
  | BARREL => FX.addBarrelFX
  | DISPLACEMENT => FX.addDisplacementFX
  end.

(** The body that the twelve methods share, the class apart. *)
Definition addFX_body (k : FXKind) : M Effect :=
  let* this := this_ in
  match fx this with
  | None => invoke call_enableFX (FX.enableFX undefined);; ret tt
  | Some _ => ret tt
  end;;
  let* this := this_ in
  let fx := Effects k (ref this) in
  FX.push fx;;
  ret fx.

(** The Game Objects that the component can produce: one that has just
    received the mixin, and whatever the methods make of it. *)
Inductive reachable : GameObject -> Prop :=
  | reach_mixin s p d : reachable (FX.mixin s p d)
  | reach_setFXPadding o v :
      reachable o -> reachable (after (FX.setFXPadding v) o)
  | reach_onFXCopy o : reachable o -> reachable (after FX.onFXCopy o)
  | reach_onFX o : reachable o -> reachable (after FX.onFX o)
  | reach_enableFX o v : reachable o -> reachable (after (FX.enableFX v) o)
  | reach_clearFX o : reachable o -> reachable (after FX.clearFX o)
  | reach_removeFX o : reachable o -> reachable (after FX.removeFX o)
  | reach_disableFX o v : reachable o -> reachable (after (FX.disableFX v) o)
  | reach_resetPipeline o : reachable o -> reachable (after resetPipeline o)
  | reach_addFX o k : reachable o -> reachable (after (addFX k) o).

(** Adding one effect of each kind of [ks], in order, collecting the
    controllers returned. *)
Fixpoint add_each (ks : list FXKind) : M (list Effect) :=
  match ks with
  | [] => ret []
  | k :: ks =>
      let* e := addFX k in
      let* es := add_each ks in
      ret (e :: es)
  end.

(** [add...FX] on [o] completes normally: it invokes [enableFX] first
    exactly when the list was not allocated, and returns a controller
    of kind [k] that is now the last entry of the list. *)
Definition adds_to_end (k : FXKind) (o : GameObject) : Prop :=
  exists e o',
    addFX k o
    = (Normal e, o', match fx o with None => [call_enableFX] | Some _ => [] end)
    /\ kind e = k
    /\ fx o' = Some (default [] (fx o) ++ [e]).

(** A [Blur] built from six arguments holds each of them: the fields
    equal the arguments and the colour reads back as given. *)
Definition stores_arguments (owner : GameObjectRef)
    (quality x y strength color steps : jsval) : Prop :=
  let this := Blur.initialize owner quality x y strength color steps in
  Blur.quality this = quality
  /\ Blur.x this = x
  /\ Blur.y this = y
  /\ Blur.strength this = strength
  /\ Blur.steps this = steps
  /\ num (Blur.color_get this) = color.

(** *** Sample scenes and objects *)

(** A scene without a renderer, and a Game Object in it. *)
Definition headless : Scene := {| renderer := None; textures := ∅ |}.

(** A scene whose renderer has lost its pipelines. *)
Definition bare : Scene :=
  {| renderer := Some {| pipelines := None |}; textures := ∅ |}.

(** A WebGL scene with the FX pipeline and the white texture. *)
Definition webgl : Scene :=
  {| renderer :=
       Some {| pipelines :=
                 Some {| FX_PIPELINE := Some (PipelineNamed "PreFXPipeline") |} |};
     textures :=
       {[ "__WHITE" := {| frame_glTexture := Some (WebGLTextureId 1) |} ]} |}.

Definition sprite (s : Scene) : GameObject :=
  FX.mixin s (Some (PipelineNamed "MultiPipeline"))
    (Some (PipelineNamed "MultiPipeline")).

(** *** Definitions of the further properties *)

(** One call of a method of the component on a Game Object. *)
Inductive step : GameObject -> GameObject -> Prop :=
  | step_setFXPadding o v : step o (after (FX.setFXPadding v) o)
  | step_onFXCopy o : step o (after FX.onFXCopy o)
  | step_onFX o : step o (after FX.onFX o)
  | step_enableFX o v : step o (after (FX.enableFX v) o)
  | step_clearFX o : step o (after FX.clearFX o)
  | step_removeFX o : step o (after FX.removeFX o)
  | step_disableFX o v : step o (after (FX.disableFX v) o)
  | step_resetPipeline o : step o (after resetPipeline o)
  | step_addFX o k : step o (after (addFX k) o).

(** A Number between 0 and 1, and a channel holding such a Number. *)
Definition in_unit (c : number) : bool :=
  SFleb (of_Z 0) c && SFleb c (of_Z 1).

Definition unit_channel (v : jsval) : bool :=
  match v with
  | num c => in_unit c
  | _ => false
  end.

(** The channel of one byte lies between 0 and 1, as a test. *)
Definition byte_unit_ok (k : Z) : bool :=
  in_unit (div (of_Z k) (of_Z 255)).

(** * Properties *)

(** ** Numbers: integers as binary64 floats *)

Section IntegerNumbers.

Lemma digits2_pos_iter_xO (p k : positive) :
  digits2_pos (Pos.iter xO p k) = (digits2_pos p + k)%positive.
Proof.
  induction k as [|k IH] using Pos.peano_ind.
  - simpl. lia.
  - rewrite Pos.iter_succ. simpl. rewrite IH. lia.
Qed.

Lemma Zpos_iter_xO (p k : positive) :
  Z.pos (Pos.iter xO p k) = Z.pos p * 2 ^ Z.pos k.
Proof.
  induction k as [|k IH] using Pos.peano_ind.
  - simpl. lia.
  - rewrite Pos.iter_succ, Pos2Z.inj_xO, IH, Pos2Z.inj_succ, Z.pow_succ_r by lia.
    lia.
Qed.

Lemma digits2_pos_bound (p : positive) :
  forall n, 0 <= n -> Z.pos p < 2 ^ n -> Z.pos (digits2_pos p) <= n.
Proof.
  induction p as [p IH|p IH|]; intros n Hn Hp; simpl;
    (assert (n <> 0) by (intros ->; simpl in Hp; lia));
    [| |lia];
    replace n with (Z.succ (n - 1)) in Hp by lia;
    rewrite Z.pow_succ_r in Hp by lia;
    specialize (IH (n - 1)); lia.
Qed.

(** A mantissa of exactly 53 bits with an exponent in range is
    already rounded. *)
Lemma binary_round_aux_exact (s : bool) (m : positive) (e : Z) :
  Z.pos (digits2_pos m) = 53 -> -1074 <= e <= 971 ->
  binary_round_aux prec emax s (Z.pos m) e loc_Exact = S754_finite s m e.
Proof.
  intros Hd He.
  assert (Hshift : fexp prec emax (Zdigits2 (Z.pos m) + e) - e = 0).
  { unfold fexp, emin, prec, emax. cbn [Zdigits2]. lia. }
  unfold binary_round_aux, shr_fexp.
  rewrite Hshift. cbn [shr shr_record_of_loc loc_of_shr_record shr_m
    shr_r shr_s round_nearest_even].
  rewrite Hshift. cbn [shr shr_record_of_loc shr_m].
  unfold prec, emax.
  replace (e <=? 1024 - 53) with true by lia. reflexivity.
Qed.

Lemma iter_pos_iter {A} (f : A -> A) (n : positive) :
  forall x, SpecFloat.iter_pos f n x = Pos.iter f x n.
Proof.
  induction n as [n IH|n IH|]; intros x; cbn [SpecFloat.iter_pos Pos.iter].
  - now rewrite !IH, !Pos.iter_swap.
  - now rewrite !IH.
  - reflexivity.
Qed.

Lemma shr_1_iter_xO (n q : positive) :
  SpecFloat.iter_pos shr_1 n
    {| shr_m := Z.pos (Pos.iter xO q n); shr_r := false; shr_s := false |}
  = {| shr_m := Z.pos q; shr_r := false; shr_s := false |}.
Proof.
  rewrite iter_pos_iter.
  induction n as [|n IH] using Pos.peano_ind.
  - reflexivity.
  - rewrite Pos.iter_succ_r, Pos.iter_succ. cbn [shr_1 orb]. exact IH.
Qed.

Lemma binary_round_aux_shift (s : bool) (q n : positive) (e : Z) :
  Z.pos (digits2_pos q) = 53 -> -1074 <= e + Z.pos n <= 971 ->
  binary_round_aux prec emax s (Z.pos (Pos.iter xO q n)) e loc_Exact
  = S754_finite s q (e + Z.pos n).
Proof.
  intros Hd He.
  assert (Hshift : fexp prec emax (Zdigits2 (Z.pos (Pos.iter xO q n)) + e) - e
                   = Z.pos n).
  { unfold fexp, emin, prec, emax. cbn [Zdigits2].
    rewrite digits2_pos_iter_xO. lia. }
  assert (Hshift' : fexp prec emax (Zdigits2 (Z.pos q) + (e + Z.pos n))
                    - (e + Z.pos n) = 0).
  { unfold fexp, emin, prec, emax. cbn [Zdigits2]. lia. }
  unfold binary_round_aux, shr_fexp.
  rewrite Hshift. cbn [shr shr_record_of_loc].
  rewrite shr_1_iter_xO.
  cbn [loc_of_shr_record shr_m shr_r shr_s round_nearest_even].
  rewrite Hshift'. cbn [shr shr_record_of_loc shr_m].
  unfold prec, emax.
  replace (e + Z.pos n <=? 1024 - 53) with true by lia. reflexivity.
Qed.

Lemma digits2_pos_shiftl (p : positive) (k : N) :
  Z.pos (digits2_pos (Pos.shiftl p k)) = Z.pos (digits2_pos p) + Z.of_N k.
Proof.
  destruct k as [|k]; unfold Pos.shiftl, Z.of_N; [lia|].
  rewrite digits2_pos_iter_xO. lia.
Qed.

Lemma Zpos_shiftl (p : positive) (k : N) :
  Z.pos (Pos.shiftl p k) = Z.pos p * 2 ^ Z.of_N k.
Proof.
  destruct k as [|k]; unfold Pos.shiftl, Z.of_N; [lia|].
  now rewrite Zpos_iter_xO.
Qed.

Lemma shiftl_shiftl (p : positive) (a b : N) :
  Pos.shiftl (Pos.shiftl p a) b = Pos.shiftl p (a + b).
Proof.
  apply Pos2Z.inj. rewrite !Zpos_shiftl, N2Z.inj_add, Z.pow_add_r by lia. lia.
Qed.

Lemma binary_round_shiftl (s : bool) (p : positive) (k : N) :
  Z.pos (digits2_pos p) <= 53 -> Z.of_N k <= 1074 ->
  binary_round prec emax s (Pos.shiftl p k) (- Z.of_N k) = canonical s p.
Proof.
  intros Hd Hk. unfold binary_round, shl_align, canonical.
  pose proof (digits2_pos_shiftl p k) as HdP.
  assert (Hf : fexp prec emax (Z.pos (digits2_pos (Pos.shiftl p k)) + - Z.of_N k)
               = Z.pos (digits2_pos p) - 53).
  { unfold fexp, emin, prec, emax. lia. }
  rewrite Hf.
  destruct (Z.pos (digits2_pos p) - 53 - - Z.of_N k) as [|n|d] eqn:Hn.
  - rewrite binary_round_aux_exact by lia. f_equal; [|lia].
    f_equal. lia.
  - replace (Pos.shiftl p k)
      with (Pos.iter xO (Pos.shiftl p (Z.to_N (53 - Z.pos (digits2_pos p)))) n).
    + rewrite binary_round_aux_shift; [f_equal; lia| |lia].
      rewrite digits2_pos_shiftl. lia.
    + change (Pos.iter xO ?q n) with (Pos.shiftl q (N.pos n)).
      rewrite shiftl_shiftl. f_equal. lia.
  - change (Pos.iter xO ?q d) with (Pos.shiftl q (N.pos d)).
    rewrite shiftl_shiftl.
    rewrite binary_round_aux_exact; [|rewrite digits2_pos_shiftl; lia|lia].
    f_equal. f_equal. lia.
Qed.

Lemma of_Z_pos (p : positive) :
  Z.pos p < 2 ^ 53 -> of_Z (Z.pos p) = canonical false p.
Proof.
  intros Hp. unfold of_Z, binary_normalize.
  apply (binary_round_shiftl false p 0); [|lia].
  apply digits2_pos_bound; lia.
Qed.

Lemma of_Z_neg (p : positive) :
  Z.pos p < 2 ^ 53 -> of_Z (Z.neg p) = canonical true p.
Proof.
  intros Hp. unfold of_Z, binary_normalize.
  apply (binary_round_shiftl true p 0); [|lia].
  apply digits2_pos_bound; lia.
Qed.

Lemma ToInt32_canonical (s : bool) (p : positive) :
  Z.pos (digits2_pos p) <= 53 ->
  ToInt32 (canonical s p) = wrap32 (cond_Zopp s (Z.pos p)).
Proof.
  intros Hd. unfold canonical. cbn [ToInt32]. f_equal.
  unfold truncate, cond_Zopp.
  rewrite Zpos_shiftl, Z2N.id by lia.
  set (k := 53 - Z.pos (digits2_pos p)).
  replace (Z.pos (digits2_pos p) - 53) with (- k) by lia.
  rewrite Z.opp_involutive.
  assert (Hmag : (if 0 <=? - k then Z.pos p * 2 ^ k * 2 ^ (- k)
                  else Z.pos p * 2 ^ k / 2 ^ k) = Z.pos p).
  { destruct (Z.leb_spec 0 (- k)) as [Hle|Hlt].
    - replace k with 0 by lia. cbn. lia.
    - apply Z.div_mul. apply Z.pow_nonzero; lia. }
  now rewrite Hmag.
Qed.

(** ToInt32 of the Number of an integer is the integer wrapped to
    32 bits. *)
Lemma ToInt32_of_Z (z : Z) :
  - 2 ^ 53 < z < 2 ^ 53 -> ToInt32 (of_Z z) = wrap32 z.
Proof.
  intros Hz. destruct z as [|p|p].
  - reflexivity.
  - rewrite of_Z_pos, ToInt32_canonical by (try apply digits2_pos_bound; lia).
    reflexivity.
  - rewrite of_Z_neg, ToInt32_canonical by (try apply digits2_pos_bound; lia).
    reflexivity.
Qed.

(** Normalising [z * 2^k] at exponent [-k] gives the Number of [z]. *)
Lemma binary_normalize_scaled (m z : Z) (k : N) :
  - 2 ^ 53 < z < 2 ^ 53 -> Z.of_N k <= 1074 ->
  m = z * 2 ^ Z.of_N k ->
  binary_normalize prec emax m (- Z.of_N k) false = of_Z z.
Proof.
  intros Hz Hk ->.
  assert (H2 : 0 < 2 ^ Z.of_N k) by (apply Z.pow_pos_nonneg; lia).
  destruct z as [|p|p].
  - reflexivity.
  - rewrite of_Z_pos by lia. rewrite <- Zpos_shiftl.
    cbn [binary_normalize]. apply binary_round_shiftl; [|lia].
    apply digits2_pos_bound; lia.
  - rewrite of_Z_neg by lia.
    replace (Z.neg p * 2 ^ Z.of_N k) with (Z.neg (Pos.shiftl p k))
      by (rewrite <- !Pos2Z.opp_pos, Zpos_shiftl; lia).
    cbn [binary_normalize]. apply binary_round_shiftl; [|lia].
    apply digits2_pos_bound; lia.
Qed.

Lemma shl_align_fst (m : positive) (e e' : Z) :
  e' <= e -> Z.pos (fst (shl_align m e e')) = Z.pos m * 2 ^ (e - e').
Proof.
  intros He. unfold shl_align.
  destruct (e' - e) as [|d|d] eqn:Hd; cbn [fst]; try lia.
  - replace (e - e') with 0 by lia. lia.
  - rewrite Zpos_iter_xO. f_equal. f_equal. lia.
Qed.

Lemma of_Z_canonical (s : bool) (p : positive) :
  Z.pos p < 2 ^ 53 -> of_Z (cond_Zopp s (Z.pos p)) = canonical s p.
Proof. destruct s; [apply of_Z_neg|apply of_Z_pos]. Qed.

Lemma add_canonical (sa sb : bool) (pa pb : positive) :
  Z.pos pa < 2 ^ 52 -> Z.pos pb < 2 ^ 52 ->
  add (canonical sa pa) (canonical sb pb)
  = of_Z (cond_Zopp sa (Z.pos pa) + cond_Zopp sb (Z.pos pb)).
Proof.
  intros Ha Hb.
  pose proof (digits2_pos_bound pa 52 ltac:(lia) Ha) as Hda.
  pose proof (digits2_pos_bound pb 52 ltac:(lia) Hb) as Hdb.
  unfold add, canonical. cbn [SFadd].
  set (ea := Z.pos (digits2_pos pa) - 53).
  set (eb := Z.pos (digits2_pos pb) - 53).
  set (ez := Z.min ea eb).
  replace ez with (- Z.of_N (Z.to_N (- ez))) at 3 by lia.
  apply binary_normalize_scaled.
  - destruct sa, sb; cbn [cond_Zopp]; lia.
  - lia.
  - rewrite !shl_align_fst by lia. rewrite !Zpos_shiftl.
    rewrite !Z2N.id by lia.
    assert (Hpa : Z.pos pa * 2 ^ (53 - Z.pos (digits2_pos pa)) * 2 ^ (ea - ez)
                  = Z.pos pa * 2 ^ (- ez)).
    { rewrite <- Z.mul_assoc, <- Z.pow_add_r by lia. f_equal. f_equal. lia. }
    assert (Hpb : Z.pos pb * 2 ^ (53 - Z.pos (digits2_pos pb)) * 2 ^ (eb - ez)
                  = Z.pos pb * 2 ^ (- ez)).
    { rewrite <- Z.mul_assoc, <- Z.pow_add_r by lia. f_equal. f_equal. lia. }
    rewrite Hpa, Hpb. destruct sa, sb; cbn [cond_Zopp]; lia.
Qed.

(** Adding the Numbers of two integers below 2^52 in magnitude is
    exact. *)
Lemma add_of_Z (a b : Z) :
  - 2 ^ 52 < a < 2 ^ 52 -> - 2 ^ 52 < b < 2 ^ 52 ->
  add (of_Z a) (of_Z b) = of_Z (a + b).
Proof.
  intros Ha Hb.
  destruct a as [|pa|pa].
  - destruct b as [|pb|pb]; [reflexivity| |].
    + rewrite Z.add_0_l, of_Z_pos by lia. reflexivity.
    + rewrite Z.add_0_l, of_Z_neg by lia. reflexivity.
  - destruct b as [|pb|pb].
    + rewrite Z.add_0_r, of_Z_pos by lia. reflexivity.
    + rewrite of_Z_pos, of_Z_pos by lia. apply (add_canonical false false); lia.
    + rewrite of_Z_pos, of_Z_neg by lia. apply (add_canonical false true); lia.
  - destruct b as [|pb|pb].
    + rewrite Z.add_0_r, of_Z_neg by lia. reflexivity.
    + rewrite of_Z_neg, of_Z_pos by lia. apply (add_canonical true false); lia.
    + rewrite of_Z_neg, of_Z_neg by lia. apply (add_canonical true true); lia.
Qed.

(** ToInt32 on a few Numbers: truncation is towards zero, integers
    beyond 32 bits wrap, NaN and the infinities convert to 0. *)
Example ToInt32_samples :
  ToInt32 (div (of_Z (-7)) (of_Z 2)) = -3
  /\ ToInt32 (of_Z (2 ^ 32 + 5)) = 5
  /\ ToInt32 (of_Z (2 ^ 31)) = - 2 ^ 31
  /\ ToInt32 NaN = 0
  /\ ToInt32 (div (of_Z 1) (of_Z 0)) = 0.
Proof. repeat apply conj; reflexivity. Qed.

(** The literal 0.005 is the quotient 5/1000 rounded to nearest. *)
Example lit_0_005_quotient :
  div (of_Z 5) (of_Z 1000) = Displacement.lit_0_005.
Proof. reflexivity. Qed.

Lemma wrap32_small (z : Z) : - 2 ^ 31 <= z < 2 ^ 31 -> wrap32 z = z.
Proof. intros Hz. unfold wrap32. rewrite Z.mod_small; lia. Qed.

Lemma wrap32_range (z : Z) : - 2 ^ 31 <= wrap32 z < 2 ^ 31.
Proof.
  unfold wrap32.
  pose proof (Z.mod_pos_bound (z + 2 ^ 31) (2 ^ 32) ltac:(lia)). lia.
Qed.

Lemma ToInt32_range (x : number) : - 2 ^ 31 <= ToInt32 x < 2 ^ 31.
Proof. destruct x; cbn [ToInt32]; try lia. apply wrap32_range. Qed.

(** Dividing a byte by 255 and multiplying the quotient by 255 gives
    the byte back: checked on each of the 256 bytes. *)
Lemma byte_ok_all : forallb byte_ok (map Z.of_nat (seq 0 256)) = true.
Proof. vm_compute. reflexivity. Qed.

Lemma byte_roundtrip (k : Z) :
  0 <= k <= 255 ->
  ToInt32 (mul (div (of_Z k) (of_Z 255)) (of_Z 255)) = k.
Proof.
  intros Hk. pose proof byte_ok_all as H.
  rewrite forallb_forall in H.
  apply Z.eqb_eq. apply (H k).
  apply in_map_iff. exists (Z.to_nat k). split; [lia|].
  apply in_seq. lia.
Qed.

Lemma band_255_range (z : Z) : 0 <= band z 255 <= 255.
Proof.
  unfold band. change 255 with (Z.ones 8).
  rewrite Z.land_ones by lia. change (Z.ones 8) with 255.
  pose proof (Z.mod_pos_bound z (2 ^ 8) ltac:(lia)). lia.
Qed.

End IntegerNumbers.

(** ** Arrays *)

Section Arrays.

Lemma array_get_set_eq (a : list jsval) (i : nat) (v : jsval) :
  array_get (array_set a i v) i = v.
Proof.
  unfold array_get, array_set. case_decide as Hi.
  - now rewrite list_lookup_insert_eq.
  - rewrite lookup_app_r by lia.
    rewrite lookup_app_r by (rewrite length_replicate; lia).
    rewrite length_replicate, Nat.sub_diag. reflexivity.
Qed.

Lemma array_get_set_ne (a : list jsval) (i j : nat) (v : jsval) :
  i <> j -> array_get (array_set a i v) j = array_get a j.
Proof.
  intros Hne. unfold array_get, array_set. case_decide as Hi.
  - now rewrite list_lookup_insert_ne.
  - destruct (decide (j < length a)%nat) as [Hj|Hj].
    + now rewrite lookup_app_l.
    + rewrite (lookup_ge_None_2 a j) by lia.
      rewrite lookup_app_r by lia.
      destruct (decide (j - length a < i - length a)%nat) as [Hlt|Hge].
      * rewrite lookup_app_l by (rewrite length_replicate; lia).
        now rewrite lookup_replicate_2.
      * rewrite lookup_app_r by (rewrite length_replicate; lia).
        rewrite length_replicate.
        destruct (j - length a - (i - length a))%nat as [|n] eqn:E; [lia|].
        reflexivity.
Qed.

End Arrays.

(** ** The colour accessor of [Blur] *)

Section BlurColor.

Lemma land_255 (z : Z) : Z.land z 255 = z mod 256.
Proof. change 255 with (Z.ones 8). now rewrite Z.land_ones by lia. Qed.

(** The bytes that the setter extracts, shifted back and added as
    the getter does, are the low 24 bits of the value. *)
Lemma bytes_sum (v : Z) :
  shl (band (sar v 16) 255) 16 + shl (band (sar v 8) 255) 8
    + Z.lor (band v 255) 0 = v mod 2 ^ 24.
Proof.
  pose proof (band_255_range (sar v 16)) as Hr.
  pose proof (band_255_range (sar v 8)) as Hg.
  unfold shl. rewrite !Z.shiftl_mul_pow2, !wrap32_small, Z.lor_0_r by lia.
  unfold band, sar. rewrite !land_255, !Z.shiftr_div_pow2 by lia.
  change (2 ^ 16) with 65536. change (2 ^ 8) with 256.
  change (2 ^ 24) with 16777216.
  Z.div_mod_to_equations. lia.
Qed.

(** What the getter computes from a channel the setter stored. *)
Lemma scaled_channel (k : Z) :
  0 <= k <= 255 ->
  ToInt32 (mul (ToNumber (num (div (of_Z k) (of_Z 255)))) (of_Z 255)) = k.
Proof. intros Hk. cbn [ToNumber]. now apply byte_roundtrip. Qed.

Lemma scaled_color_set (value : jsval) (this : Blur.t) :
  let v := ToInt32 (ToNumber value) in
  let color := Blur.glcolor (Blur.color_set value this) in
  Blur.scaled color 0 = band (sar v 16) 255
  /\ Blur.scaled color 1 = band (sar v 8) 255
  /\ Blur.scaled color 2 = band v 255.
Proof.
  intros v color. subst color. unfold Blur.color_set, Blur.scaled.
  fold v. cbn [Blur.glcolor Blur.with_glcolor]. unfold Blur.channel.
  repeat split.
  - rewrite array_get_set_ne, array_get_set_ne, array_get_set_eq by lia.
    apply scaled_channel, band_255_range.
  - rewrite array_get_set_ne, array_get_set_eq by lia.
    apply scaled_channel, band_255_range.
  - rewrite array_get_set_eq.
    apply scaled_channel, band_255_range.
Qed.

(** Reading the colour after a write gives the low 24 bits of the
    written value. *)
Lemma color_get_set (value : jsval) (this : Blur.t) :
  Blur.color_get (Blur.color_set value this)
  = of_Z (ToInt32 (ToNumber value) mod 2 ^ 24).
Proof.
  destruct (scaled_color_set value this) as (H0 & H1 & H2).
  unfold Blur.color_get. cbv zeta in H0, H1, H2.
  rewrite H0, H1, H2.
  pose proof (wrap32_range (Z.shiftl (band (sar (ToInt32 (ToNumber value)) 16) 255) 16)).
  pose proof (wrap32_range (Z.shiftl (band (sar (ToInt32 (ToNumber value)) 8) 255) 8)).
  pose proof (band_255_range (ToInt32 (ToNumber value))).
  rewrite Z.lor_0_r in *. unfold shl in *.
  rewrite !add_of_Z by lia.
  rewrite <- bytes_sum. unfold shl. now rewrite Z.lor_0_r.
Qed.

(** The channels depend on the low 24 bits of the value only. *)
Lemma channel_mod (v : Z) (shift : Z) :
  0 <= shift <= 16 ->
  band (sar (wrap32 v) shift) 255 = band (sar (v mod 2 ^ 24) shift) 255.
Proof.
  intros Hs. apply Z.bits_inj'. intros n Hn. unfold band, sar.
  rewrite !Z.land_spec, !Z.shiftr_spec by lia.
  change 255 with (Z.ones 8).
  destruct (Z.ltb_spec n 8) as [Hlt|Hge].
  - f_equal. rewrite Z.mod_pow2_bits_low by lia.
    rewrite <- (Z.mod_pow2_bits_low (wrap32 v) 32 (n + shift)) by lia.
    unfold wrap32. rewrite Zminus_mod_idemp_l.
    replace (v + 2 ^ 31 - 2 ^ 31) with v by lia.
    now rewrite Z.mod_pow2_bits_low by lia.
  - rewrite Z.ones_spec_high by lia. now rewrite !andb_false_r.
Qed.

End BlurColor.

(** ** The [Blur] controller *)

Section BlurController.

(** C1.  Writing a 24-bit integer to the [color] property and reading
    the property gives the integer back.  Writing 0xFF0000 leaves the
    channels (1, 0, 0); the channels (1, 1, 1) read as 0xFFFFFF and
    the channels (0, 0, 0) as 0x000000. *)
Theorem Blur_color_roundtrip :
  (forall (v : Z) (this : Blur.t),
      0 <= v <= 0xFFFFFF ->
      Blur.color_get (Blur.color_set (int v) this) = of_Z v)
  /\ (forall this : Blur.t,
        map (array_get (Blur.glcolor (Blur.color_set (int 0xFF0000) this)))
          [0; 1; 2]%nat
        = [int 1; int 0; int 0])
  /\ (forall this : Blur.t,
        Blur.glcolor this = [int 1; int 1; int 1] ->
        Blur.color_get this = of_Z 0xFFFFFF)
  /\ (forall this : Blur.t,
        Blur.glcolor this = [int 0; int 0; int 0] ->
        Blur.color_get this = of_Z 0x000000).
Proof.
  repeat split.
  - intros v this Hv. rewrite color_get_set. unfold int. cbn [ToNumber].
    rewrite ToInt32_of_Z, wrap32_small, Z.mod_small by lia. reflexivity.
  - intros this. unfold Blur.color_set. cbn [Blur.glcolor Blur.with_glcolor map].
    rewrite array_get_set_ne, array_get_set_ne, array_get_set_eq by lia.
    rewrite array_get_set_ne, array_get_set_eq by lia.
    rewrite array_get_set_eq.
    vm_compute. reflexivity.
  - intros this H. unfold Blur.color_get. rewrite H. vm_compute. reflexivity.
  - intros this H. unfold Blur.color_get. rewrite H. vm_compute. reflexivity.
Qed.

Lemma Blur_color_roundtrip_witness :
  0 <= 0x336699 <= 0xFFFFFF
  /\ Blur.color_get
       (Blur.color_set (int 0x336699)
          (Blur.initialize (ref (sprite webgl)) undefined undefined undefined
             undefined undefined undefined))
     = of_Z 0x336699.
Proof.
  split; [lia|]. apply (proj1 Blur_color_roundtrip). lia.
Defined.

(** C7.  For a value in the range of a 32-bit integer, signed or
    unsigned, the setter stores the channels of the value reduced
    modulo 2^24.  The setter is a total function: no value makes it
    fail. *)
Theorem Blur_color_set_masks (v : Z) (this : Blur.t) :
  - 2 ^ 31 <= v < 2 ^ 32 ->
  Blur.glcolor (Blur.color_set (int v) this)
  = Blur.glcolor (Blur.color_set (int (v mod 2 ^ 24)) this).
Proof.
  intros Hv.
  pose proof (Z.mod_pos_bound v (2 ^ 24) ltac:(lia)) as Hm.
  unfold Blur.color_set, Blur.channel, int.
  cbn [Blur.glcolor Blur.with_glcolor ToNumber].
  rewrite !ToInt32_of_Z by lia.
  rewrite (wrap32_small (v mod 2 ^ 24)) by lia.
  rewrite (channel_mod v 16), (channel_mod v 8) by lia.
  pose proof (channel_mod v 0 ltac:(lia)) as H0.
  unfold sar in H0. rewrite !Z.shiftr_0_r in H0. rewrite H0.
  reflexivity.
Qed.

Lemma Blur_color_set_masks_witness :
  - 2 ^ 31 <= -2 < 2 ^ 32
  /\ Blur.glcolor
       (Blur.color_set (int (-2))
          (Blur.initialize (ref (sprite webgl)) undefined undefined undefined
             undefined undefined undefined))
     = Blur.glcolor
         (Blur.color_set (int ((-2) mod 2 ^ 24))
            (Blur.initialize (ref (sprite webgl)) undefined undefined
               undefined undefined undefined undefined)).
Proof.
  split; [lia|]. apply (Blur_color_set_masks (-2)). lia.
Defined.

(** C5.  A [Blur] built from the owning Game Object alone has quality
    0, x 2, y 2, strength 1, steps 4, the channels [1, 1, 1] and the
    colour 0xFFFFFF. *)
Theorem Blur_defaults (owner : GameObjectRef) :
  let this :=
    Blur.initialize owner undefined undefined undefined undefined undefined
      undefined in
  Blur.quality this = int 0
  /\ Blur.x this = int 2
  /\ Blur.y this = int 2
  /\ Blur.strength this = int 1
  /\ Blur.steps this = int 4
  /\ Blur.color_get this = of_Z 0xFFFFFF
  /\ Blur.glcolor this = [int 1; int 1; int 1].
Proof.
  cbv zeta. repeat split; vm_compute; reflexivity.
Qed.

(** The [quality] argument never reaches the field, which holds the
    literal 0 whatever is passed. *)
Lemma Blur_quality_literal (owner : GameObjectRef)
    (q x y s c n : jsval) :
  Blur.quality (Blur.initialize owner q x y s c n) = int 0.
Proof. destruct c; reflexivity. Qed.

Example Blur_quality_high_dropped :
  Blur.quality
    (Blur.initialize (ref (sprite webgl)) (int 2) (int 2) (int 2) (int 1)
       (int 0xFFFFFF) (int 4))
  = int 0.
Proof. reflexivity. Qed.

(** C2, as stated, fails: a colour beyond 24 bits is stored masked, so
    0x1000000 reads back as 0. *)
Lemma Blur_stores_arguments_counterexample :
  ~ stores_arguments (ref (sprite webgl))
      (int 0) (int 2) (int 2) (int 1) (int 0x1000000) (int 4).
Proof.
  unfold stores_arguments. intros (_ & _ & _ & _ & _ & H).
  vm_compute in H. discriminate H.
Qed.

(** C2, amended.  For all numbers x, y, strength, color and steps, and
    any quality, the fields x, y, strength and steps of the [Blur]
    built from them hold the arguments as given, and the colour reads
    back as the low 24 bits of ToInt32(color), which is the argument
    itself when it is a 24-bit integer. *)
Theorem Blur_initialize_stores (owner : GameObjectRef) (q : jsval)
    (x y s c n : number) :
  let this := Blur.initialize owner q (num x) (num y) (num s) (num c) (num n) in
  Blur.x this = num x
  /\ Blur.y this = num y
  /\ Blur.strength this = num s
  /\ Blur.steps this = num n
  /\ Blur.color_get this = of_Z (ToInt32 c mod 2 ^ 24)
  /\ (forall v : Z, 0 <= v <= 0xFFFFFF -> c = of_Z v ->
        Blur.color_get this = c).
Proof.
  cbv zeta. unfold Blur.initialize.
  cbn [is_undefined is_null negb andb]. rewrite color_get_set.
  cbn [ToNumber]. repeat split.
  intros v Hv ->.
  rewrite ToInt32_of_Z, wrap32_small, Z.mod_small by lia. reflexivity.
Qed.

Lemma Blur_initialize_stores_witness :
  0 <= 0x336699 <= 0xFFFFFF
  /\ Blur.color_get
       (Blur.initialize (ref (sprite webgl)) (int 1) (int 3) (int 5)
          (int 2) (int 0x336699) (int 6))
     = of_Z 0x336699.
Proof.
  split; [lia|].
  destruct (Blur_initialize_stores (ref (sprite webgl)) (int 1) (of_Z 3)
              (of_Z 5) (of_Z 2) (of_Z 0x336699) (of_Z 6))
    as (_ & _ & _ & _ & _ & H).
  apply (H 0x336699); [lia|reflexivity].
Defined.

End BlurController.

(** ** The [Displacement] controller *)

Section DisplacementController.

Lemma setTexture_unknown (texture : string) (this : Displacement.t) :
  getFrame (textures (ref_scene (gameObject (Displacement.super this)))) texture
  = None ->
  Displacement.setTexture texture this = this.
Proof. intros H. unfold Displacement.setTexture. now rewrite H. Qed.

Lemma setTexture_known (texture : string) (frame : Frame)
    (this : Displacement.t) :
  getFrame (textures (ref_scene (gameObject (Displacement.super this)))) texture
  = Some frame ->
  Displacement.glTexture (Displacement.setTexture texture this)
  = frame_glTexture frame.
Proof. intros H. unfold Displacement.setTexture. now rewrite H. Qed.

(** C8.  The constructor looks the frame named "__WHITE" up in the
    texture manager of the owner's scene and takes its [glTexture];
    when the scene has no such frame, [glTexture] is left unset.  A
    later [setTexture] with a name the scene does not know leaves the
    controller, and so its [glTexture], as it was.  Both are total
    functions: neither case raises an error. *)
Theorem Displacement_texture_lookup (owner : GameObjectRef) :
  (forall frame : Frame,
      getFrame (textures (ref_scene owner)) "__WHITE" = Some frame ->
      Displacement.glTexture (Displacement.initialize owner)
      = frame_glTexture frame)
  /\ (getFrame (textures (ref_scene owner)) "__WHITE" = None ->
      Displacement.glTexture (Displacement.initialize owner) = None)
  /\ (forall (texture : string) (this : Displacement.t),
        gameObject (Displacement.super this) = owner ->
        getFrame (textures (ref_scene owner)) texture = None ->
        Displacement.setTexture texture this = this
        /\ (Displacement.glTexture this = None ->
            Displacement.glTexture (Displacement.setTexture texture this)
            = None)).
Proof.
  repeat split.
  - intros frame H. unfold Displacement.initialize.
    now rewrite (setTexture_known _ frame).
  - intros H. unfold Displacement.initialize. now rewrite setTexture_unknown.
  - subst owner. now apply setTexture_unknown.
  - subst owner. now rewrite setTexture_unknown.
Qed.

Lemma Displacement_texture_lookup_witness :
  Displacement.glTexture (Displacement.initialize (ref (sprite headless)))
  = None
  /\ Displacement.setTexture "missing"
       (Displacement.initialize (ref (sprite headless)))
     = Displacement.initialize (ref (sprite headless))
  /\ Displacement.glTexture (Displacement.initialize (ref (sprite webgl)))
     = Some (WebGLTextureId 1).
Proof.
  destruct (Displacement_texture_lookup (ref (sprite headless)))
    as (_ & Hnone & Hset).
  destruct (Displacement_texture_lookup (ref (sprite webgl)))
    as (Hsome & _ & _).
  split; [apply Hnone; reflexivity|].
  split.
  - apply (Hset "missing"); reflexivity.
  - apply (Hsome {| frame_glTexture := Some (WebGLTextureId 1) |}).
    reflexivity.
Defined.

End DisplacementController.

(** ** The FX component *)

Section FXComponent.

(** Destructs a Game Object down to the parts the guard of [enableFX]
    inspects, and evaluates the method at hand. *)
Ltac run_on o :=
  destruct o as [[[[[?pm|]]|] ?tm] ?p ?d ?f ?pad];
  cbn in *; try discriminate; subst.

Lemma has_pipelines_false (s : Scene) :
  has_pipelines s = false
  <-> renderer s = None
      \/ exists r, renderer s = Some r /\ pipelines r = None.
Proof.
  unfold has_pipelines. split.
  - destruct (renderer s) as [r|]; [|now left].
    destruct (pipelines r) eqn:E; [discriminate|]. right. now exists r.
  - intros [->|(r & -> & ->)]; reflexivity.
Qed.

Lemma setTexture_super (texture : string) (this : Displacement.t) :
  Displacement.super (Displacement.setTexture texture this)
  = Displacement.super this.
Proof. unfold Displacement.setTexture. now destruct (getFrame _ _). Qed.

(** Each class of [Effects] tags its controllers with its own kind. *)
Lemma kind_Effects (k : FXKind) (owner : GameObjectRef) :
  kind (Effects k owner) = k.
Proof.
  destruct k; try reflexivity.
  unfold kind, Effects, controller, Displacement.initialize.
  now rewrite setTexture_super.
Qed.

Lemma addFX_eq (k : FXKind) : addFX k = addFX_body k.
Proof. destruct k; reflexivity. Qed.

Lemma enableFX_no_pipelines (padding : jsval) (o : GameObject) :
  has_pipelines (scene o) = false ->
  FX.enableFX padding o = (Normal o, o, []).
Proof. intros H. unfold has_pipelines in H. run_on o; reflexivity. Qed.

Lemma enableFX_pipelines (padding : jsval) (o : GameObject) :
  has_pipelines (scene o) = true ->
  exists o',
    FX.enableFX padding o = (Normal o', o', [])
    /\ scene o' = scene o
    /\ fx o' = Some (default [] (fx o)).
Proof.
  intros H. unfold has_pipelines in H. run_on o.
  all: destruct f, padding; cbn; eexists; repeat split.
Qed.

Lemma addFX_allocated (k : FXKind) (o : GameObject) (l : list Effect) :
  fx o = Some l ->
  addFX k o
  = (Normal (Effects k (ref o)),
     set_fx (Some (l ++ [Effects k (ref o)])) o, []).
Proof. intros H. rewrite addFX_eq. destruct o; cbn in *; subst. reflexivity. Qed.

Lemma addFX_fresh (k : FXKind) (o : GameObject) :
  fx o = None -> has_pipelines (scene o) = true ->
  exists o',
    addFX k o = (Normal (Effects k (ref o)), o', [call_enableFX])
    /\ fx o' = Some [Effects k (ref o)].
Proof.
  intros Hf H. rewrite addFX_eq. unfold has_pipelines in H. run_on o.
  eexists. split; reflexivity.
Qed.

Lemma addFX_null (k : FXKind) (o : GameObject) :
  fx o = None -> has_pipelines (scene o) = false ->
  addFX k o = (Throw TypeError, o, [call_enableFX]).
Proof.
  intros Hf H. rewrite addFX_eq. unfold has_pipelines in H.
  run_on o; reflexivity.
Qed.

(** No method moves a Game Object to another scene. *)
Lemma reachable_step_scene (o : GameObject) :
  (forall v, scene (after (FX.setFXPadding v) o) = scene o)
  /\ (forall v, scene (after (FX.enableFX v) o) = scene o)
  /\ (forall v, scene (after (FX.disableFX v) o) = scene o)
  /\ scene (after resetPipeline o) = scene o
  /\ (forall k, scene (after (addFX k) o) = scene o).
Proof.
  repeat apply conj; intros; unfold after.
  - destruct o, v; reflexivity.
  - destruct (has_pipelines (scene o)) eqn:H.
    + destruct (enableFX_pipelines v o H) as (o' & -> & Hs & _). exact Hs.
    + now rewrite enableFX_no_pipelines.
  - unfold FX.disableFX. destruct (ToBoolean v); destruct o; reflexivity.
  - destruct o; reflexivity.
  - destruct (fx o) as [l|] eqn:Hf.
    + rewrite (addFX_allocated k o l Hf). now destruct o.
    + rewrite addFX_eq. run_on o; reflexivity.
Qed.

(** Where the scene has no pipelines the list is never allocated. *)
Lemma reachable_fx_null (o : GameObject) :
  reachable o -> has_pipelines (scene o) = false -> fx o = None.
Proof.
  induction 1 as [s p d|o v _ IH|o _ IH|o _ IH|o v _ IH|o _ IH|o _ IH
                 |o v _ IH|o _ IH|o k _ IH]; intros Hs.
  - reflexivity.
  - destruct (reachable_step_scene o) as (E & _). rewrite E in Hs.
    specialize (IH Hs). destruct o, v; exact IH.
  - exact (IH Hs).
  - exact (IH Hs).
  - destruct (reachable_step_scene o) as (_ & E & _). rewrite E in Hs.
    specialize (IH Hs). unfold after. now rewrite enableFX_no_pipelines.
  - exact (IH Hs).
  - exact (IH Hs).
  - destruct (reachable_step_scene o) as (_ & _ & E & _). rewrite E in Hs.
    specialize (IH Hs). unfold after, FX.disableFX.
    destruct (ToBoolean v); destruct o; exact IH.
  - destruct (reachable_step_scene o) as (_ & _ & _ & E & _). rewrite E in Hs.
    specialize (IH Hs). destruct o; exact IH.
  - destruct (reachable_step_scene o) as (_ & _ & _ & _ & E). rewrite E in Hs.
    specialize (IH Hs). unfold after. now rewrite addFX_null.
Qed.

Lemma add_each_allocated (ks : list FXKind) :
  forall (o : GameObject) (l : list Effect),
    fx o = Some l ->
    exists es,
      add_each ks o = (Normal es, set_fx (Some (l ++ es)) o, [])
      /\ map kind es = ks.
Proof.
  induction ks as [|k ks IH]; intros o l Hf.
  - exists []. split; [|reflexivity].
    rewrite app_nil_r. destruct o; cbn in *; subst. reflexivity.
  - set (e := Effects k (ref o)).
    destruct (IH (set_fx (Some (l ++ [e])) o) (l ++ [e])) as (es & Hes & Hk).
    { reflexivity. }
    exists (e :: es). split.
    + cbn [add_each]. unfold bind at 1.
      rewrite (addFX_allocated k o l Hf). fold e.
      unfold bind at 1. rewrite Hes. cbn.
      rewrite <- app_assoc. destruct o; reflexivity.
    + cbn [map]. rewrite Hk. unfold e. now rewrite kind_Effects.
Qed.

(** C9.  [setFXPadding] returns the Game Object it is called on; the
    object then holds the given padding, whatever it is, or 0 when the
    argument is missing, and is otherwise as before.  The method never
    fails and invokes nothing. *)
Theorem setFXPadding_stores (padding : jsval) (o : GameObject) :
  let o' := after (FX.setFXPadding padding) o in
  result (FX.setFXPadding padding) o = Normal o'
  /\ calls (FX.setFXPadding padding) o = []
  /\ (is_undefined padding = false -> fxPadding o' = padding)
  /\ fxPadding (after (FX.setFXPadding undefined) o) = int 0
  /\ scene o' = scene o
  /\ pipeline o' = pipeline o
  /\ defaultPipeline o' = defaultPipeline o
  /\ fx o' = fx o.
Proof.
  destruct o. cbv zeta. repeat apply conj; try reflexivity.
  destruct padding; (discriminate || reflexivity).
Qed.

Lemma setFXPadding_stores_witness :
  fxPadding (after (FX.setFXPadding (int (-7))) (sprite webgl)) = int (-7).
Proof.
  destruct (setFXPadding_stores (int (-7)) (sprite webgl))
    as (_ & _ & H & _).
  apply H. reflexivity.
Defined.

(** C4.  Where the scene has no renderer, or the renderer has no
    pipelines, [enableFX] completes normally, returns the Game Object,
    leaves every property of it as it was and invokes nothing; the
    effect list of such an object is, and stays, [null]. *)
Theorem enableFX_without_pipelines (padding : jsval) (o : GameObject) :
  has_pipelines (scene o) = false ->
  FX.enableFX padding o = (Normal o, o, [])
  /\ (reachable o -> fx (after (FX.enableFX padding) o) = None).
Proof.
  intros H. split.
  - now apply enableFX_no_pipelines.
  - intros Hr. unfold after. rewrite enableFX_no_pipelines by exact H.
    now apply reachable_fx_null.
Qed.

Lemma enableFX_without_pipelines_witness :
  FX.enableFX (int 4) (sprite headless)
  = (Normal (sprite headless), sprite headless, [])
  /\ FX.enableFX undefined (sprite bare)
     = (Normal (sprite bare), sprite bare, []).
Proof.
  split.
  - apply (enableFX_without_pipelines (int 4) (sprite headless)). reflexivity.
  - apply (enableFX_without_pipelines undefined (sprite bare)). reflexivity.
Defined.

(** C6.  [disableFX] invokes [resetPipeline], which puts the Game
    Object back on its default pipeline, and then invokes [clearFX]
    exactly when the flag is truthy.  The effect list is left as it
    was, by [disableFX(false)] in particular. *)
Theorem disableFX_resets (clear : jsval) (o : GameObject) :
  result (FX.disableFX clear) o = Normal undefined
  /\ pipeline (after (FX.disableFX clear) o) = defaultPipeline o
  /\ calls (FX.disableFX clear) o
     = call_resetPipeline :: (if ToBoolean clear then [call_clearFX] else [])
  /\ fx (after (FX.disableFX (boolean false)) o) = fx o
  /\ fx (after (FX.disableFX clear) o) = fx o.
Proof.
  unfold result, after, calls, FX.disableFX.
  destruct (ToBoolean clear); destruct o; repeat apply conj; reflexivity.
Qed.

(** C10.  Where the scene has no renderer, or the renderer has no
    pipelines, every [add...FX] method ends in a TypeError: the
    [enableFX] it invokes returns without allocating the list, and the
    push then finds [this.fx] still [null].  The Game Object is left
    as it was. *)
Theorem addFX_without_pipelines_throws (k : FXKind) (o : GameObject) :
  reachable o ->
  has_pipelines (scene o) = false ->
  addFX k o = (Throw TypeError, o, [call_enableFX])
  /\ FX.addGlowFX o = (Throw TypeError, o, [call_enableFX]).
Proof.
  intros Hr Hs. pose proof (reachable_fx_null o Hr Hs) as Hf.
  split; [|change FX.addGlowFX with (addFX GLOW)]; now apply addFX_null.
Qed.

Lemma addFX_without_pipelines_throws_witness :
  FX.addDisplacementFX (after (FX.enableFX (int 2)) (sprite headless))
  = (Throw TypeError, after (FX.enableFX (int 2)) (sprite headless),
     [call_enableFX]).
Proof.
  apply (addFX_without_pipelines_throws DISPLACEMENT
           (after (FX.enableFX (int 2)) (sprite headless))).
  - apply reach_enableFX. apply reach_mixin.
  - reflexivity.
Defined.

(** C3, as stated, fails: on a Game Object in a scene without a
    renderer, [addGlowFX] appends nothing and returns nothing. *)
Lemma adds_to_end_counterexample : ~ adds_to_end GLOW (sprite headless).
Proof.
  intros (e & o' & H & _). vm_compute in H. discriminate H.
Qed.

(** C3, amended.  On a Game Object whose list is allocated, or whose
    scene has a renderer with pipelines, each [add...FX] method invokes
    [enableFX] first exactly when the list is not allocated, builds a
    controller of its kind, appends it to the list and returns it.
    Hence adding effects of the kinds [ks] to a Game Object that
    [enableFX] has just enabled leaves the list holding one controller
    per kind, in the order added. *)
Theorem addFX_appends (k : FXKind) (ks : list FXKind) (padding : jsval)
    (o : GameObject) :
  is_Some (fx o) \/ has_pipelines (scene o) = true ->
  adds_to_end k o
  /\ (fx o = None ->
      exists es o',
        add_each ks (after (FX.enableFX padding) o) = (Normal es, o', [])
        /\ fx o' = Some es
        /\ map kind es = ks
        /\ length es = length ks).
Proof.
  intros H. split.
  - unfold adds_to_end. destruct (fx o) as [l|] eqn:Hf.
    + exists (Effects k (ref o)), (set_fx (Some (l ++ [Effects k (ref o)])) o).
      split; [now apply addFX_allocated|].
      split; [apply kind_Effects|]. now destruct o.
    + destruct H as [[l Hl]|H]; [discriminate|].
      destruct (addFX_fresh k o Hf H) as (o' & Hadd & Hfx).
      exists (Effects k (ref o)), o'.
      split; [exact Hadd|]. split; [apply kind_Effects|exact Hfx].
  - intros Hf. destruct H as [[l Hl]|H]; [congruence|].
    destruct (enableFX_pipelines padding o H) as (o1 & Hen & _ & Hfx1).
    unfold after. rewrite Hen. cbn [fst snd].
    rewrite Hf in Hfx1. cbn [default] in Hfx1.
    destruct (add_each_allocated ks o1 [] Hfx1) as (es & Hes & Hk).
    exists es, (set_fx (Some ([] ++ es)) o1).
    split; [exact Hes|]. split; [now destruct o1|].
    split; [exact Hk|]. now rewrite <- Hk, length_map.
Qed.

Lemma addFX_appends_witness :
  adds_to_end BLUR (sprite webgl)
  /\ exists es o',
       add_each [GLOW; SHADOW; BLUR; BLOOM; DISPLACEMENT]
         (after (FX.enableFX undefined) (sprite webgl))
       = (Normal es, o', [])
       /\ fx o' = Some es
       /\ map kind es = [GLOW; SHADOW; BLUR; BLOOM; DISPLACEMENT]
       /\ length es = 5%nat.
Proof.
  destruct (addFX_appends BLUR [GLOW; SHADOW; BLUR; BLOOM; DISPLACEMENT]
              undefined (sprite webgl)) as (H1 & H2).
  - right. reflexivity.
  - split; [exact H1|]. apply H2. reflexivity.
Defined.

End FXComponent.

(** ** Further properties of the FX component *)

Section FXComponentMore.

(** Evaluates a method on a Game Object taken apart down to what the
    guard of [enableFX] reads. *)
Ltac eval_on o :=
  destruct o as [[[[[?pm|]]|] ?tm] ?p ?d ?f ?pad]; cbn in *;
  try discriminate; subst.

(** X1.  Where the scene has a renderer with pipelines, [enableFX]
    completes normally and returns the Game Object, now on the FX
    pipeline; a list already allocated is kept as it is and a missing
    one becomes the empty list; the padding is replaced exactly when
    an argument is passed. *)
Theorem enableFX_enables (padding : jsval) (o : GameObject)
    (r : Renderer) (pm : PipelineManager) :
  renderer (scene o) = Some r ->
  pipelines r = Some pm ->
  let o' := after (FX.enableFX padding) o in
  FX.enableFX padding o = (Normal o', o', [])
  /\ pipeline o' = FX_PIPELINE pm
  /\ fx o' = Some (default [] (fx o))
  /\ fxPadding o' = (if is_undefined padding then fxPadding o else padding)
  /\ scene o' = scene o
  /\ defaultPipeline o' = defaultPipeline o.
Proof.
  intros Hr Hp. destruct o as [[rd tm] p d f pad]. cbn in Hr. subst rd.
  unfold after, FX.enableFX, bind, this_. cbn [scene renderer].
  rewrite Hp. destruct f, padding; cbn; repeat apply conj; reflexivity.
Qed.

Lemma enableFX_enables_witness :
  fx (after (FX.enableFX (int 4)) (sprite webgl)) = Some []
  /\ fxPadding (after (FX.enableFX (int 4)) (sprite webgl)) = int 4.
Proof.
  destruct (enableFX_enables (int 4) (sprite webgl)
              {| pipelines :=
                   Some {| FX_PIPELINE := Some (PipelineNamed "PreFXPipeline") |} |}
              {| FX_PIPELINE := Some (PipelineNamed "PreFXPipeline") |}
              eq_refl eq_refl) as (_ & _ & Hfx & Hpad & _).
  split; [exact Hfx|exact Hpad].
Defined.

(** X2.  [enableFX] is idempotent: a second call with the same
    argument changes nothing, with or without pipelines. *)
Theorem enableFX_idempotent (padding : jsval) (o : GameObject) :
  after (FX.enableFX padding) (after (FX.enableFX padding) o)
  = after (FX.enableFX padding) o.
Proof. eval_on o; destruct f, padding; reflexivity. Qed.

(** X3.  Enabling again after [disableFX] brings back the Game Object
    that [enableFX] had produced: the FX pipeline is selected again,
    the effects and the padding are still there. *)
Theorem enableFX_after_disableFX (padding clear : jsval) (o : GameObject) :
  has_pipelines (scene o) = true ->
  after (FX.enableFX undefined)
    (after (FX.disableFX clear) (after (FX.enableFX padding) o))
  = after (FX.enableFX padding) o.
Proof.
  intros H. unfold has_pipelines in H. eval_on o.
  unfold after, FX.disableFX.
  destruct (ToBoolean clear), f, padding; reflexivity.
Qed.

Lemma enableFX_after_disableFX_witness :
  after (FX.enableFX undefined)
    (after (FX.disableFX (boolean true))
       (after (FX.enableFX (int 4)) (sprite webgl)))
  = after (FX.enableFX (int 4)) (sprite webgl).
Proof.
  apply (enableFX_after_disableFX (int 4) (boolean true) (sprite webgl)).
  reflexivity.
Defined.

(** X4.  With pipelines, [enableFX(p)] for a given [p] does what
    [enableFX()] followed by [setFXPadding(p)] does. *)
Theorem enableFX_padding_split (padding : jsval) (o : GameObject) :
  has_pipelines (scene o) = true ->
  is_undefined padding = false ->
  after (FX.enableFX padding) o
  = after (FX.setFXPadding padding) (after (FX.enableFX undefined) o).
Proof.
  intros H Hp. unfold has_pipelines in H. eval_on o.
  destruct f, padding; try discriminate; reflexivity.
Qed.

Lemma enableFX_padding_split_witness :
  after (FX.enableFX (int 4)) (sprite webgl)
  = after (FX.setFXPadding (int 4)) (after (FX.enableFX undefined) (sprite webgl)).
Proof.
  apply (enableFX_padding_split (int 4) (sprite webgl)); reflexivity.
Defined.


Lemma addFX_frame (k : FXKind) (o : GameObject) :
  fxPadding (after (addFX k) o) = fxPadding o
  /\ defaultPipeline (after (addFX k) o) = defaultPipeline o.
Proof. rewrite addFX_eq. eval_on o; destruct f; split; reflexivity. Qed.

Lemma step_fx_grows (o o' : GameObject) (l : list Effect) :
  step o o' -> fx o = Some l ->
  exists l', fx o' = Some (l ++ l') /\ (length l' <= 1)%nat.
Proof.
  intros Hs Hl.
  assert (Hsame : forall x : GameObject, fx x = fx o ->
            exists l', fx x = Some (l ++ l') /\ (length l' <= 1)%nat).
  { intros x ->. exists []. rewrite app_nil_r. split; [exact Hl|cbn; lia]. }
  destruct Hs as [o v|o|o|o v|o|o|o v|o|o k].
  - apply Hsame. reflexivity.
  - apply Hsame. reflexivity.
  - apply Hsame. reflexivity.
  - apply Hsame. destruct (has_pipelines (scene o)) eqn:Hp.
    + destruct (enableFX_pipelines v o Hp) as (o' & He & _ & Hfx).
      unfold after. rewrite He. cbn [fst snd]. rewrite Hfx, Hl. reflexivity.
    + unfold after. now rewrite enableFX_no_pipelines.
  - apply Hsame. reflexivity.
  - apply Hsame. reflexivity.
  - apply Hsame. unfold after, FX.disableFX.
    destruct (ToBoolean v); reflexivity.
  - apply Hsame. reflexivity.
  - exists [Effects k (ref o)]. split; [|cbn; lia].
    unfold after. now rewrite (addFX_allocated k o l Hl).
Qed.

(** X5.  No sequence of calls of the component's methods removes,
    replaces or reorders an effect, or sets the list back to [null]:
    the list before is a prefix of the list after.  This includes
    [clearFX], [removeFX] and [disableFX(true)]. *)
Theorem fx_list_only_grows (o o' : GameObject) (l : list Effect) :
  rtc step o o' -> fx o = Some l -> exists l', fx o' = Some (l ++ l').
Proof.
  intros Hs. revert l. induction Hs as [o|o o1 o2 H1 _ IH]; intros l Hl.
  - exists []. now rewrite app_nil_r.
  - destruct (step_fx_grows o o1 l H1 Hl) as (l1 & Hl1 & _).
    destruct (IH _ Hl1) as (l2 & Hl2).
    exists (l1 ++ l2). now rewrite app_assoc.
Qed.

Lemma fx_list_only_grows_witness :
  exists l',
    fx (after FX.clearFX
          (after (FX.disableFX (boolean true))
             (after FX.addGlowFX (after (FX.enableFX undefined) (sprite webgl)))))
    = Some ([] ++ l').
Proof.
  apply (fx_list_only_grows (after (FX.enableFX undefined) (sprite webgl))).
  - eapply rtc_l; [apply (step_addFX _ GLOW)|].
    eapply rtc_l; [apply (step_disableFX _ (boolean true))|].
    eapply rtc_l; [apply step_clearFX|].
    apply rtc_refl.
  - reflexivity.
Defined.

Lemma step_frame (o o' : GameObject) :
  step o o' -> scene o' = scene o /\ defaultPipeline o' = defaultPipeline o.
Proof.
  intros Hs. destruct Hs as [o v|o|o|o v|o|o|o v|o|o k].
  - split; reflexivity.
  - split; reflexivity.
  - split; reflexivity.
  - eval_on o; destruct f, v; split; reflexivity.
  - split; reflexivity.
  - split; reflexivity.
  - unfold after, FX.disableFX. destruct (ToBoolean v); split; reflexivity.
  - split; reflexivity.
  - split; [|apply addFX_frame].
    now destruct (reachable_step_scene o) as (_ & _ & _ & _ & ->).
Qed.

(** X18.  No sequence of calls of the component's methods moves the
    Game Object to another scene or changes its default pipeline, so
    [disableFX] always goes back to the same pipeline. *)
Theorem steps_frame (o o' : GameObject) (clear : jsval) :
  rtc step o o' ->
  scene o' = scene o
  /\ defaultPipeline o' = defaultPipeline o
  /\ pipeline (after (FX.disableFX clear) o') = defaultPipeline o.
Proof.
  intros Hs.
  assert (H : scene o' = scene o /\ defaultPipeline o' = defaultPipeline o).
  { induction Hs as [o|o o1 o2 H1 _ IH]; [split; reflexivity|].
    destruct (step_frame o o1 H1) as (Hs1 & Hd1). destruct IH as (Hs2 & Hd2).
    split; congruence. }
  destruct H as (H1 & H2). repeat apply conj; [exact H1|exact H2|].
  rewrite <- H2. unfold after, FX.disableFX.
  destruct (ToBoolean clear); reflexivity.
Qed.

Lemma steps_frame_witness :
  pipeline
    (after (FX.disableFX null)
       (after FX.addBloomFX (after (FX.setFXPadding (int 3)) (sprite webgl))))
  = defaultPipeline (sprite webgl).
Proof.
  destruct (steps_frame (sprite webgl)
              (after FX.addBloomFX (after (FX.setFXPadding (int 3)) (sprite webgl)))
              null) as (_ & _ & H).
  - eapply rtc_l; [apply (step_setFXPadding _ (int 3))|].
    eapply rtc_l; [apply (step_addFX _ BLOOM)|].
    apply rtc_refl.
  - exact H.
Defined.

(** X6.  The padding of a Game Object that the component has produced
    is never [undefined]: [setFXPadding] replaces a missing argument
    by 0 and [enableFX] ignores one. *)
Theorem reachable_fxPadding_defined (o : GameObject) :
  reachable o -> is_undefined (fxPadding o) = false.
Proof.
  induction 1 as [s p d|o v _ IH|o _ IH|o _ IH|o v _ IH|o _ IH|o _ IH
                 |o v _ IH|o _ IH|o k _ IH].
  - reflexivity.
  - destruct o, v; cbn in *; (reflexivity || exact IH).
  - exact IH.
  - exact IH.
  - eval_on o; destruct f, v; cbn in *; (reflexivity || exact IH).
  - exact IH.
  - exact IH.
  - unfold after, FX.disableFX. destruct (ToBoolean v); exact IH.
  - exact IH.
  - now rewrite (proj1 (addFX_frame k o)).
Qed.

Lemma reachable_fxPadding_defined_witness :
  is_undefined
    (fxPadding
       (after (FX.enableFX undefined)
          (after (FX.setFXPadding undefined) (sprite webgl))))
  = false.
Proof.
  apply reachable_fxPadding_defined.
  apply reach_enableFX, reach_setFXPadding, reach_mixin.
Defined.





(** X8.  An [add...FX] method that finds the list allocated does not
    invoke [enableFX] and leaves the pipeline alone: an effect added
    after [disableFX] is appended while the Game Object stays on its
    default pipeline. *)
Theorem addFX_after_disableFX (k : FXKind) (clear : jsval) (o : GameObject)
    (l : list Effect) :
  fx o = Some l ->
  let o1 := after (FX.disableFX clear) o in
  calls (addFX k) o1 = []
  /\ pipeline (after (addFX k) o1) = defaultPipeline o
  /\ fx (after (addFX k) o1) = Some (l ++ [Effects k (ref o)]).
Proof.
  intros Hl o1.
  assert (H1 : o1 = set_pipeline (defaultPipeline o) o).
  { unfold o1, after, FX.disableFX. destruct (ToBoolean clear); reflexivity. }
  assert (Hl1 : fx o1 = Some l) by (rewrite H1; exact Hl).
  unfold calls, after. rewrite (addFX_allocated k o1 l Hl1).
  rewrite H1. repeat apply conj; reflexivity.
Qed.

Lemma addFX_after_disableFX_witness :
  pipeline
    (after FX.addShadowFX
       (after (FX.disableFX undefined)
          (after (FX.enableFX undefined) (sprite webgl))))
  = Some (PipelineNamed "MultiPipeline").
Proof.
  destruct (addFX_after_disableFX SHADOW undefined
              (after (FX.enableFX undefined) (sprite webgl)) [] eq_refl)
    as (_ & H & _).
  exact H.
Defined.

(** X9.  On a Game Object whose list is not allocated, an [add...FX]
    method completes as it would after an explicit [enableFX()] and
    leaves the same Game Object, with or without pipelines. *)
Theorem addFX_lazy_enable (k : FXKind) (o : GameObject) :
  fx o = None ->
  result (addFX k) o = result (addFX k) (after (FX.enableFX undefined) o)
  /\ after (addFX k) o = after (addFX k) (after (FX.enableFX undefined) o).
Proof.
  intros Hf. rewrite !addFX_eq. eval_on o; split; reflexivity.
Qed.

Lemma addFX_lazy_enable_witness :
  after FX.addGlowFX (sprite webgl)
  = after FX.addGlowFX (after (FX.enableFX undefined) (sprite webgl)).
Proof.
  destruct (addFX_lazy_enable GLOW (sprite webgl) eq_refl) as (_ & H).
  exact H.
Defined.

(** X10.  Where it completes, [addDisplacementFX] returns a
    [Displacement] whose [glTexture] is that of the frame "__WHITE" of
    the Game Object's own scene, and is unset when the scene has no
    such frame. *)
Theorem addDisplacementFX_texture (o : GameObject) :
  is_Some (fx o) \/ has_pipelines (scene o) = true ->
  exists d : Displacement.t,
    result FX.addDisplacementFX o = Normal (EffectDisplacement d)
    /\ Displacement.glTexture d
       = getFrame (textures (scene o)) "__WHITE" ≫= frame_glTexture.
Proof.
  intros H. exists (Displacement.initialize (ref o)). split.
  - change FX.addDisplacementFX with (addFX DISPLACEMENT). unfold result.
    destruct (fx o) as [l|] eqn:Hf.
    + now rewrite (addFX_allocated DISPLACEMENT o l Hf).
    + destruct H as [[l Hl]|H]; [discriminate|].
      destruct (addFX_fresh DISPLACEMENT o Hf H) as (o' & -> & _).
      reflexivity.
  - unfold Displacement.initialize, Displacement.setTexture.
    cbn [Displacement.super Controller_call gameObject ref ref_scene].
    now destruct (getFrame (textures (scene o)) "__WHITE").
Qed.

Lemma addDisplacementFX_texture_witness :
  exists d : Displacement.t,
    result FX.addDisplacementFX (sprite webgl) = Normal (EffectDisplacement d)
    /\ Displacement.glTexture d
       = getFrame (textures (scene (sprite webgl))) "__WHITE"
         ≫= frame_glTexture.
Proof.
  apply (addDisplacementFX_texture (sprite webgl)). right. reflexivity.
Defined.

End FXComponentMore.

(** ** Further properties of the controllers *)

Section ControllersMore.

Lemma array_set_nil_0 (v : jsval) : array_set [] 0 v = [v].
Proof. reflexivity. Qed.

Lemma array_set_cons_0 (x : jsval) (a : list jsval) (v : jsval) :
  array_set (x :: a) 0 v = v :: a.
Proof. unfold array_set. cbn [length]. case_decide; [reflexivity|lia]. Qed.

Lemma array_set_cons_S (x : jsval) (a : list jsval) (i : nat) (v : jsval) :
  array_set (x :: a) (S i) v = x :: array_set a i v.
Proof.
  unfold array_set. cbn [length].
  repeat case_decide; try lia; reflexivity.
Qed.

(** Three writes at the indices 0, 1 and 2 fix the first three
    entries and keep what follows them. *)
Lemma array_set_012 (a : list jsval) (c0 c1 c2 : jsval) :
  array_set (array_set (array_set a 0 c0) 1 c1) 2 c2
  = [c0; c1; c2] ++ drop 3 a.
Proof.
  destruct a as [|a0 [|a1 [|a2 a]]];
    repeat (rewrite ?array_set_nil_0, ?array_set_cons_0, ?array_set_cons_S);
    reflexivity.
Qed.

Lemma glcolor_color_set (value : jsval) (this : Blur.t) :
  let v := ToInt32 (ToNumber value) in
  Blur.glcolor (Blur.color_set value this)
  = [Blur.channel v 16; Blur.channel v 8;
     num (div (of_Z (band v 255)) (of_Z 255))]
    ++ drop 3 (Blur.glcolor this).
Proof.
  cbv zeta. unfold Blur.color_set. cbn [Blur.glcolor Blur.with_glcolor].
  apply array_set_012.
Qed.

Lemma byte_unit_ok_all : forallb byte_unit_ok (map Z.of_nat (seq 0 256)) = true.
Proof. vm_compute. reflexivity. Qed.

Lemma byte_in_unit (k : Z) :
  0 <= k <= 255 -> in_unit (div (of_Z k) (of_Z 255)) = true.
Proof.
  intros Hk. pose proof byte_unit_ok_all as H.
  rewrite forallb_forall in H. apply (H k).
  apply in_map_iff. exists (Z.to_nat k). split; [lia|].
  apply in_seq. lia.
Qed.

Lemma color_set_unit_channels (value : jsval) (this : Blur.t) :
  Forall (fun c => unit_channel c = true)
    (take 3 (Blur.glcolor (Blur.color_set value this))).
Proof.
  rewrite glcolor_color_set. cbn [take app]. unfold Blur.channel.
  repeat constructor; cbn [unit_channel]; apply byte_in_unit, band_255_range.
Qed.

Lemma color_get_set_range (value : jsval) (this : Blur.t) :
  exists m : Z,
    0 <= m <= 0xFFFFFF
    /\ Blur.color_get (Blur.color_set value this) = of_Z m.
Proof.
  exists (ToInt32 (ToNumber value) mod 2 ^ 24). split.
  - pose proof (Z.mod_pos_bound (ToInt32 (ToNumber value)) (2 ^ 24)
                  ltac:(lia)). lia.
  - apply color_get_set.
Qed.

Lemma glcolor_color_set_length (value : jsval) (this : Blur.t) :
  length (Blur.glcolor (Blur.color_set value this))
  = Nat.max 3 (length (Blur.glcolor this)).
Proof.
  rewrite glcolor_color_set. cbn [app length]. rewrite length_drop. lia.
Qed.

(** The setter replaces the channels of [this] and nothing else. *)
Lemma color_set_with_glcolor (value : jsval) (this : Blur.t) :
  Blur.color_set value this
  = Blur.with_glcolor this (Blur.glcolor (Blur.color_set value this)).
Proof. reflexivity. Qed.

(** The channels of a value are those of its low 24 bits. *)
Lemma glcolor_color_set_low24 (value : jsval) (this : Blur.t) :
  Blur.glcolor
    (Blur.color_set (int (ToInt32 (ToNumber value) mod 2 ^ 24)) this)
  = Blur.glcolor (Blur.color_set value this).
Proof.
  set (v := ToInt32 (ToNumber value)).
  pose proof (ToInt32_range (ToNumber value)) as Hv. fold v in Hv.
  pose proof (Z.mod_pos_bound v (2 ^ 24) ltac:(lia)) as Hm.
  assert (Hch : forall s, 0 <= s <= 16 ->
            band (sar (v mod 2 ^ 24) s) 255 = band (sar v s) 255).
  { intros s Hs. rewrite <- (channel_mod v s Hs). now rewrite wrap32_small. }
  rewrite (glcolor_color_set (int (v mod 2 ^ 24))).
  rewrite (glcolor_color_set value this). fold v.
  unfold int. cbn [ToNumber]. rewrite ToInt32_of_Z, wrap32_small by lia.
  unfold Blur.channel. rewrite (Hch 16), (Hch 8) by lia.
  pose proof (Hch 0 ltac:(lia)) as H0. unfold sar in H0.
  rewrite !Z.shiftr_0_r in H0. now rewrite H0.
Qed.

(** X11.  Whatever is written to [color], a number of any size, NaN,
    an infinity, a boolean, [null] or [undefined], the three channels
    stored lie between 0 and 1 and the colour reads back as an integer
    of 24 bits. *)
Theorem Blur_color_set_range (value : jsval) (this : Blur.t) :
  let b := Blur.color_set value this in
  Forall (fun c => unit_channel c = true) (take 3 (Blur.glcolor b))
  /\ exists m : Z, 0 <= m <= 0xFFFFFF /\ Blur.color_get b = of_Z m.
Proof.
  cbv zeta. split;
    [apply color_set_unit_channels|apply color_get_set_range].
Qed.

(** X12.  The setter writes the entries 0, 1 and 2 of [glcolor] and
    nothing else: what follows them is kept, an array of three or more
    entries keeps its length and a shorter one grows to three; no
    other property of the controller changes. *)
Theorem Blur_color_set_shape (value : jsval) (this : Blur.t) :
  let b := Blur.color_set value this in
  drop 3 (Blur.glcolor b) = drop 3 (Blur.glcolor this)
  /\ length (Blur.glcolor b) = Nat.max 3 (length (Blur.glcolor this))
  /\ Blur.super b = Blur.super this
  /\ Blur.quality b = Blur.quality this
  /\ Blur.x b = Blur.x this
  /\ Blur.y b = Blur.y this
  /\ Blur.steps b = Blur.steps this
  /\ Blur.strength b = Blur.strength this.
Proof.
  cbv zeta. split; [now rewrite glcolor_color_set|].
  split; [apply glcolor_color_set_length|].
  repeat apply conj; reflexivity.
Qed.

(** X13.  Of two writes to [color] the last one wins: the first
    leaves no trace. *)
Theorem Blur_color_set_twice (v1 v2 : jsval) (this : Blur.t) :
  Blur.color_set v2 (Blur.color_set v1 this) = Blur.color_set v2 this.
Proof.
  rewrite (color_set_with_glcolor v2 (Blur.color_set v1 this)).
  rewrite (color_set_with_glcolor v2 this).
  rewrite !glcolor_color_set. reflexivity.
Qed.

(** X14.  Once the colour has been written, writing back the colour
    that is read changes nothing. *)
Theorem Blur_color_get_set (value : jsval) (this : Blur.t) :
  let b := Blur.color_set value this in
  Blur.color_set (num (Blur.color_get b)) b = b.
Proof.
  cbv zeta. rewrite color_get_set.
  change (num (of_Z ?m)) with (int m).
  rewrite (color_set_with_glcolor _ (Blur.color_set value this)).
  rewrite (color_set_with_glcolor value this) at 3.
  rewrite <- (glcolor_color_set_low24 value this).
  rewrite !glcolor_color_set. reflexivity.
Qed.

(** X15.  Every write to [color] amounts to writing an integer of 24
    bits: the value counts through the low 24 bits of its ToInt32
    only, so fractions are cut off, and NaN, the infinities, [null]
    and [undefined] count as 0. *)
Theorem Blur_color_set_low24 (value : jsval) (this : Blur.t) :
  Blur.color_set value this
  = Blur.color_set (int (ToInt32 (ToNumber value) mod 2 ^ 24)) this.
Proof.
  rewrite (color_set_with_glcolor value this).
  rewrite (color_set_with_glcolor (int _) this).
  now rewrite glcolor_color_set_low24.
Qed.

(** X16.  Every new [Blur], whatever the arguments, has exactly three
    channels, each between 0 and 1, and a colour of 24 bits; leaving
    the colour out, as [undefined] or as [null], gives the channels
    [1, 1, 1]. *)
Theorem Blur_initialize_channels (owner : GameObjectRef)
    (q x y s c n : jsval) :
  let this := Blur.initialize owner q x y s c n in
  length (Blur.glcolor this) = 3%nat
  /\ Forall (fun c => unit_channel c = true) (Blur.glcolor this)
  /\ (exists m : Z, 0 <= m <= 0xFFFFFF /\ Blur.color_get this = of_Z m)
  /\ (is_undefined c || is_null c = true ->
      Blur.glcolor this = [int 1; int 1; int 1]).
Proof.
  cbv zeta. unfold Blur.initialize.
  destruct (negb (is_undefined c) && negb (is_null c)) eqn:Hc.
  - match goal with |- context [Blur.color_set c ?t] => set (this := t) end.
    pose proof (color_set_unit_channels c this) as Hu.
    pose proof (glcolor_color_set_length c this) as Hlen.
    change (length (Blur.glcolor this)) with 3%nat in Hlen.
    rewrite take_ge in Hu by (rewrite Hlen; cbn; lia).
    repeat apply conj;
      [exact Hlen|exact Hu|apply color_get_set_range|].
    intros Hn. destruct c; discriminate.
  - repeat apply conj.
    + reflexivity.
    + cbn [Blur.glcolor]. repeat constructor.
    + exists 0xFFFFFF. split; [lia|]. vm_compute. reflexivity.
    + reflexivity.
Qed.

Lemma Blur_initialize_channels_witness :
  Blur.glcolor
    (Blur.initialize (ref (sprite webgl)) (int 1) (int 3) null (int 2) null
       (int 6))
  = [int 1; int 1; int 1].
Proof.
  destruct (Blur_initialize_channels (ref (sprite webgl)) (int 1) (int 3) null
              (int 2) null (int 6)) as (_ & _ & _ & H).
  apply H. reflexivity.
Defined.

(** X17.  Of two [setTexture] calls the last one with a known name
    decides the texture; a call with an unknown name leaves what the
    call before it did.  Repeating a call changes nothing.  The kind,
    the owner and the offsets are never touched. *)
Theorem Displacement_setTexture_twice (t1 t2 : string) (this : Displacement.t) :
  Displacement.setTexture t2 (Displacement.setTexture t1 this)
  = match getFrame
            (textures (ref_scene (gameObject (Displacement.super this)))) t2
    with
    | Some _ => Displacement.setTexture t2 this
    | None => Displacement.setTexture t1 this
    end
  /\ Displacement.setTexture t1 (Displacement.setTexture t1 this)
     = Displacement.setTexture t1 this
  /\ Displacement.super (Displacement.setTexture t1 this)
     = Displacement.super this
  /\ Displacement.x (Displacement.setTexture t1 this) = Displacement.x this
  /\ Displacement.y (Displacement.setTexture t1 this) = Displacement.y this.
Proof.
  unfold Displacement.setTexture.
  destruct (getFrame _ t1) as [f1|] eqn:H1; cbn [Displacement.super];
    rewrite ?H1;
    destruct (getFrame _ t2) as [f2|] eqn:H2; cbn;
    repeat apply conj; reflexivity.
Qed.

End ControllersMore.
